(** * The cross-build compatibility header [sys/types.h]

    A shallow embedding of
    [tools/build/cross-build/include/common/sys/types.h]: the header is a
    list of preprocessor directives, run by a small interpreter of the
    directives it uses ([#pragma once], [#include], [#include_next],
    [#ifdef], [#ifndef], [#define] and lines of C declarations).  The
    platform's own headers are not part of the repository; they are
    parameters of the development. *)

From stdpp Require Import base strings list gmap sets.

#[local] Set Warnings "-clear-no-such-hyp".

(** ** C declarations that pass through the preprocessor *)

(** Type expressions: the ones on the right of the header's typedefs
    ([int], [unsigned long], a typedef name, [struct tag]) and
    [unsigned int], which platform headers need for [uint32_t]. *)
Inductive ctype : Type :=
| TInt
| TUnsignedInt
| TUnsignedLong
| TName (n : string)
| TStruct (tag : string).

(** A line of C text: [typedef ty name;], the forward declaration
    [struct tag;], or a struct definition [struct tag { fields };] (the
    header has none of the last kind; a platform header may). *)
Inductive decl : Type :=
| Typedef (ty : ctype) (name : string)
| StructFwd (tag : string)
| StructDef (tag : string) (fields : list (ctype * string)).

#[global] Instance ctype_eq_dec : EqDecision ctype.
Proof. solve_decision. Defined.

#[global] Instance decl_eq_dec : EqDecision decl.
Proof. solve_decision. Defined.

(** ** Preprocessor directives *)

#[local] Unset Elimination Schemes.
Inductive directive : Type :=
| PragmaOnce
| IncludeNext (f : string)
| Include (f : string)
| Ifdef (m : string) (body : list directive)
| Ifndef (m : string) (body : list directive)
| Define (m : string)
| Emit (d : decl).
#[local] Set Elimination Schemes.

(** Induction on directives, through the bodies of conditionals. *)
Section directive_induction.
Variable Q : directive -> Prop.
Hypothesis Q_once : Q PragmaOnce.
Hypothesis Q_next : forall f, Q (IncludeNext f).
Hypothesis Q_include : forall f, Q (Include f).
Hypothesis Q_ifdef : forall m body, Forall Q body -> Q (Ifdef m body).
Hypothesis Q_ifndef : forall m body, Forall Q body -> Q (Ifndef m body).
Hypothesis Q_define : forall m, Q (Define m).
Hypothesis Q_emit : forall d, Q (Emit d).

Fixpoint directive_ind (d : directive) : Q d :=
  let all :=
    fix all (ds : list directive) : Forall Q ds :=
      match ds with
      | [] => @List.Forall_nil _ Q
      | d' :: ds' => @List.Forall_cons _ Q d' ds' (directive_ind d') (all ds')
      end in
  match d with
  | PragmaOnce => Q_once
  | IncludeNext f => Q_next f
  | Include f => Q_include f
  | Ifdef m body => Q_ifdef m body (all body)
  | Ifndef m body => Q_ifndef m body (all body)
  | Define m => Q_define m
  | Emit d' => Q_emit d'
  end.
End directive_induction.

(** ** Preprocessor state

    [macros] is the table of defined macro names, [once] the set of files
    marked by [#pragma once], and [out] the preprocessed output: the
    declarations emitted so far, in order, each with the file it comes
    from (the preprocessor's line markers). *)
Record pp_state : Type := PP {
  macros : gset string;
  once : gset string;
  out : list (string * decl)
}.

Inductive pp_error : Type :=
| FileNotFound (f : string).

Inductive result (E A : Type) : Type :=
| Ok (a : A)
| Err (e : E).
Arguments Ok {E A} a.
Arguments Err {E A} e.

Definition bind {E A B : Type} (r : result E A) (k : A -> result E B)
  : result E B :=
  match r with
  | Ok a => k a
  | Err e => Err e
  end.

(** ** The platform

    What a platform header does when it is entered depends on the macro
    table; it defines macros and emits declarations. *)
Record header_fx : Type := Fx {
  fx_defines : gset string;
  fx_emits : list decl
}.

Definition header : Type := gset string -> header_fx.

(** [resolve f] is the file [#include <f>] finds on the search path,
    [resolve_next f] the one [#include_next <f>] finds in the directories
    after the one that holds this header.  [None]: no such file. *)
Record platform : Type := Platform {
  resolve : string -> option header;
  resolve_next : string -> option header
}.

(** ** Running directives *)

Definition enter (f : string) (h : header) (s : pp_state) : pp_state :=
  let fx := h (macros s) in
  {| macros := macros s ∪ fx_defines fx;
     once := once s;
     out := out s ++ map (pair f) (fx_emits fx) |}.

Definition mark_once (self : string) (s : pp_state) : pp_state :=
  {| macros := macros s; once := {[self]} ∪ once s; out := out s |}.

Definition define (m : string) (s : pp_state) : pp_state :=
  {| macros := {[m]} ∪ macros s; once := once s; out := out s |}.

Definition emit (self : string) (d : decl) (s : pp_state) : pp_state :=
  {| macros := macros s; once := once s; out := out s ++ [(self, d)] |}.

Definition include_header (f : string) (found : option header) (s : pp_state)
  : result pp_error pp_state :=
  match found with
  | Some h => Ok (enter f h s)
  | None => Err (FileNotFound f)
  end.

(** Steps in sequence; the first error stops the run. *)
Definition run_seq {E A S : Type} (step : A -> S -> result E S)
  : list A -> S -> result E S :=
  fix go (ds : list A) (s : S) : result E S :=
    match ds with
    | [] => Ok s
    | d :: ds' => bind (step d s) (go ds')
    end.

(** [run P self d s]: directive [d] of the file [self] in state [s]. *)
Fixpoint run (P : platform) (self : string) (d : directive) (s : pp_state)
  : result pp_error pp_state :=
  match d with
  | PragmaOnce => Ok (mark_once self s)
  | IncludeNext f => include_header f (resolve_next P f) s
  | Include f => include_header f (resolve P f) s
  | Ifdef m body =>
      if decide (m ∈ macros s) then run_seq (run P self) body s else Ok s
  | Ifndef m body =>
      if decide (m ∈ macros s) then Ok s else run_seq (run P self) body s
  | Define m => Ok (define m s)
  | Emit d => Ok (emit self d s)
  end.

Definition run_file (P : platform) (self : string) (body : list directive)
  (s : pp_state) : result pp_error pp_state :=
  run_seq (run P self) body s.

(** [#include] of a file whose text is [body]: skipped when the file is
    marked once-only. *)
Definition include_file (P : platform) (self : string) (body : list directive)
  (s : pp_state) : result pp_error pp_state :=
  if decide (self ∈ once s) then Ok s else run_file P self body s.

(** ** The header *)

Definition types_h_path : string :=
  "tools/build/cross-build/include/common/sys/types.h".

Definition types_h : list directive :=
  [ PragmaOnce;
    IncludeNext "sys/types.h";
    Include "stdint.h";
    Ifdef "__linux__"
      [ Emit (Typedef (TName "uintptr_t") "__uintptr_t") ];
    Emit (Typedef TInt "__nl_item");
    Emit (Typedef (TName "size_t") "u_register_t");
    Ifndef "_CAP_IOCTL_T_DECLARED"
      [ Define "_CAP_IOCTL_T_DECLARED";
        Emit (Typedef TUnsignedLong "cap_ioctl_t") ];
    Ifndef "_CAP_RIGHTS_T_DECLARED"
      [ Define "_CAP_RIGHTS_T_DECLARED";
        Emit (StructFwd "cap_rights");
        Emit (Typedef (TStruct "cap_rights") "cap_rights_t") ] ].

Definition include_types_h (P : platform) (s : pp_state) : result pp_error pp_state :=
  include_file P types_h_path types_h s.

(** Lines 1-7 forward to the platform; lines 9-30 patch in the missing
    declarations. *)
Definition types_h_forwarding : list directive := take 3 types_h.
Definition types_h_patches : list directive := drop 3 types_h.

(** The state in which the header's conditionals are evaluated: the one
    reached once the platform headers have been read. *)
Definition forwarded (P : platform) (s : pp_state) : result pp_error pp_state :=
  run_file P types_h_path types_h_forwarding s.

(** [n] inclusions of the header in a row. *)
Fixpoint include_times (P : platform) (n : nat) (s : pp_state)
  : result pp_error pp_state :=
  match n with
  | O => Ok s
  | S n' => bind (include_types_h P s) (include_times P n')
  end.

(** ** Reading the output *)

(** The lines added between [s] and [s'], those of them that come from
    file [f], and those that come from this header. *)
Definition emitted (s s' : pp_state) : list (string * decl) :=
  drop (length (out s)) (out s').

Definition from (f : string) (ls : list (string * decl)) : list decl :=
  map snd (filter (fun l => l.1 = f) ls).

Definition own_decls (s s' : pp_state) : list decl :=
  from types_h_path (emitted s s').

(** The header's two capsicum guard macros, and the declarations its
    conditionals select under the macro table [M] (lines 9-30 read as a
    function of [M]; [patches_run] proves the interpreter computes
    exactly this). *)
Definition guard_macros : gset string :=
  {[ "_CAP_IOCTL_T_DECLARED"; "_CAP_RIGHTS_T_DECLARED" ]}.

Definition patch_decls (M : gset string) : list decl :=
  (if decide ("__linux__" ∈ M)
   then [ Typedef (TName "uintptr_t") "__uintptr_t" ] else []) ++
  [ Typedef TInt "__nl_item"; Typedef (TName "size_t") "u_register_t" ] ++
  (if decide ("_CAP_IOCTL_T_DECLARED" ∈ M)
   then [] else [ Typedef TUnsignedLong "cap_ioctl_t" ]) ++
  (if decide ("_CAP_RIGHTS_T_DECLARED" ∈ M)
   then []
   else [ StructFwd "cap_rights";
          Typedef (TStruct "cap_rights") "cap_rights_t" ]).

(** The translation unit as the compiler sees it. *)
Definition declarations (s : pp_state) : list decl := map snd (out s).

Definition typedef_name (d : decl) : option string :=
  match d with
  | Typedef _ n => Some n
  | _ => None
  end.

Definition typedef_names (ds : list decl) : list string :=
  omap typedef_name ds.


Definition patched_names : list string :=
  [ "__uintptr_t"; "__nl_item"; "u_register_t"; "cap_ioctl_t"; "cap_rights_t" ].


(** ** Checking declarations

    What the compiler does with the preprocessed declarations, as far as
    names go: a typedef needs its type to be known, a typedef name may be
    declared again only with the same type, a struct may be defined once
    and its fields need complete types. *)
Inductive cc_error : Type :=
| UnknownType (n : string)
| ConflictingTypes (n : string)
| StructRedefinition (tag : string)
| IncompleteType (tag : string).

Record tenv : Type := TEnv {
  typedefs : gmap string ctype;
  structs : gset string
}.

Definition tenv_empty : tenv := TEnv ∅ ∅.

(** A type with its typedef names resolved. *)
Definition canon (env : tenv) (ty : ctype) : result cc_error ctype :=
  match ty with
  | TName n =>
      match typedefs env !! n with
      | Some c => Ok c
      | None => Err (UnknownType n)
      end
  | _ => Ok ty
  end.

Definition check_field (env : tenv) (fld : ctype * string) (u : unit)
  : result cc_error unit :=
  bind (canon env fld.1) (fun c =>
    match c with
    | TStruct tag =>
        if decide (tag ∈ structs env) then Ok u else Err (IncompleteType tag)
    | _ => Ok u
    end).

Definition check_decl (d : decl) (env : tenv) : result cc_error tenv :=
  match d with
  | Typedef ty n =>
      bind (canon env ty) (fun c =>
        match typedefs env !! n with
        | Some c' =>
            if decide (c = c') then Ok env else Err (ConflictingTypes n)
        | None => Ok (TEnv (<[n := c]> (typedefs env)) (structs env))
        end)
  | StructFwd _ => Ok env
  | StructDef tag fields =>
      if decide (tag ∈ structs env) then Err (StructRedefinition tag)
      else bind (run_seq (check_field env) fields ())
             (fun _ => Ok (TEnv (typedefs env) ({[tag]} ∪ structs env)))
  end.

Definition check_decls (ds : list decl) (env : tenv) : result cc_error tenv :=
  run_seq check_decl ds env.

Definition check_tu (s : pp_state) : result cc_error tenv :=
  check_decls (declarations s) tenv_empty.

(** ** Sample platforms *)

(** A platform header behind an include guard [g]. *)
Definition guarded (g : string) (defs : gset string) (ds : list decl) : header :=
  fun M => if decide (g ∈ M) then Fx ∅ [] else Fx ({[g]} ∪ defs) ds.

Definition host (stdint sys_types : option header) : platform :=
  {| resolve f := if decide (f = "stdint.h") then stdint else None;
     resolve_next f := if decide (f = "sys/types.h") then sys_types else None |}.

Definition stdint_h : header :=
  guarded "_STDINT_H" ∅
    [ Typedef TUnsignedInt "uint32_t"; Typedef TUnsignedLong "uintptr_t" ].

Definition posix_sys_types_h : header :=
  guarded "_SYS_TYPES_H" ∅ [ Typedef TUnsignedLong "size_t" ].

(** A sys/types.h that has the FreeBSD names already; [reg] is its type
    of registers. *)
Definition bsd_sys_types_h (reg : ctype) : header :=
  guarded "_SYS_TYPES_H_" {[ "_CAP_IOCTL_T_DECLARED"; "_CAP_RIGHTS_T_DECLARED" ]}
    [ Typedef TUnsignedLong "size_t";
      Typedef TInt "__nl_item";
      Typedef TUnsignedLong "__uintptr_t";
      Typedef reg "u_register_t";
      Typedef TUnsignedLong "cap_ioctl_t";
      StructFwd "cap_rights";
      Typedef (TStruct "cap_rights") "cap_rights_t" ].

(** A host with plain POSIX headers, hosts with the FreeBSD names (on the
    second one [u_register_t] is not [size_t]), and a host without
    <stdint.h>. *)
Definition posix_host : platform :=
  host (Some stdint_h) (Some posix_sys_types_h).
Definition bsd_host : platform :=
  host (Some stdint_h) (Some (bsd_sys_types_h TUnsignedLong)).

(** The start of a translation unit with the compiler's predefined macros. *)
Definition tu (predefined : gset string) : pp_state := PP predefined ∅ [].

(** On Linux the compiler predefines [__linux__]; elsewhere it does not. *)
Definition linux_tu : pp_state := tu {[ "__linux__" ]}.
Definition other_tu : pp_state := tu ∅.

(** ** The preprocessor only adds

    No directive of the language removes a macro, forgets a once-only
    mark, or takes back output. *)
Record extends (s s' : pp_state) : Prop := Extends {
  ext_macros : macros s ⊆ macros s';
  ext_once : once s ⊆ once s';
  ext_out : out s `prefix_of` out s'
}.

(** The state the patches leave behind when they start in [s1]
    ([patches_run] proves it). *)
Definition patched (s1 : pp_state) : pp_state :=
  {| macros := guard_macros ∪ macros s1;
     once := once s1;
     out := out s1 ++ map (pair types_h_path) (patch_decls (macros s1)) |}.

(** A translation unit in which another header has declared
    [cap_ioctl_t] behind its guard before this one is included. *)
Definition ioctl_declared_tu : pp_state :=
  {| macros := {[ "__linux__"; "_CAP_IOCTL_T_DECLARED" ]};
     once := ∅;
     out := [ ("sys/capsicum.h", Typedef TUnsignedLong "cap_ioctl_t") ] |}.

(** The state after the header has been included in [s] on platform [P]
    ([s] itself when the inclusion fails), and the state in which the
    header's conditionals are evaluated. *)
Definition included (P : platform) (s : pp_state) : pp_state :=
  match include_types_h P s with
  | Ok s' => s'
  | Err _ => s
  end.

Definition forwarded_state (P : platform) (s : pp_state) : pp_state :=
  match forwarded P s with
  | Ok s1 => s1
  | Err _ => s
  end.

(** A host whose [size_t] is [unsigned int], and a translation unit that
    has read a configuration header before it includes this one. *)
Definition ilp32_host : platform :=
  host (Some stdint_h)
       (Some (guarded "_SYS_TYPES_H" ∅ [ Typedef TUnsignedInt "size_t" ])).

Definition configured_linux_tu : pp_state :=
  {| macros := {[ "__linux__"; "NDEBUG" ]};
     once := {[ "config.h" ]};
     out := [ ("config.h", Typedef TInt "word_t") ] |}.


(** [declare n c env]: the environment once [typedef c n;] is accepted.
    [may_declare env n c]: the name [n] is free, or is a typedef name of
    the very type [c] already (declaring it again is then no error). *)
Definition declare (n : string) (c : ctype) (env : tenv) : tenv :=
  TEnv (<[n := c]> (typedefs env)) (structs env).

Definition may_declare (env : tenv) (n : string) (c : ctype) : Prop :=
  typedefs env !! n = None \/ typedefs env !! n = Some c.

(** The environment the compiler reaches on a translation unit that it
    accepts (the empty one when it does not). *)
Definition checked (s : pp_state) : tenv :=
  match check_tu s with
  | Ok env => env
  | Err _ => tenv_empty
  end.

(** A host whose sys/types.h declares nothing, not even [size_t]. *)
Definition sizeless_host : platform :=
  host (Some stdint_h) (Some (guarded "_SYS_TYPES_H" ∅ [])).

(** The words of the header's declaration lines (lines 10, 14, 16, 22, 27
    and 29).  The interpreter passes declaration lines through as they
    are written, which is what the preprocessor does when none of their
    words is a macro: [as_written M] says so of the macro table [M].
    Statements about what the header's own lines contain assume it. *)
Definition types_h_words : list string :=
  [ "typedef"; "uintptr_t"; "__uintptr_t"; "int"; "__nl_item"; "size_t";
    "u_register_t"; "unsigned"; "long"; "cap_ioctl_t"; "struct";
    "cap_rights"; "cap_rights_t" ].

Definition as_written (M : gset string) : Prop :=
  forall w, w ∈ types_h_words -> w ∉ M.


(** * Properties of the interpreter *)

Section run_seq_facts.
Context {E A S : Type} (step : A -> S -> result E S).

Lemma run_seq_cons (d : A) (ds : list A) (s : S) :
  run_seq step (d :: ds) s = bind (step d s) (run_seq step ds).
Proof. reflexivity. Qed.

Lemma run_seq_app (ds1 ds2 : list A) (s : S) :
  run_seq step (ds1 ++ ds2) s
  = bind (run_seq step ds1 s) (run_seq step ds2).
Proof.
  revert s. induction ds1 as [|d ds1 IH]; intros s; [reflexivity|].
  rewrite <- app_comm_cons, !run_seq_cons.
  destruct (step d s) as [s1|e]; simpl; [apply IH | reflexivity].
Qed.

(** A property kept by every step is kept by the run. *)
Lemma run_seq_preserves (R : S -> S -> Prop) `{!PreOrder R}
    (ds : list A) :
  Forall (fun d => forall s s', step d s = Ok s' -> R s s') ds ->
  forall s s', run_seq step ds s = Ok s' -> R s s'.
Proof.
  induction 1 as [|d ds Hd _ IH]; intros s s' Hrun.
  - injection Hrun as <-. reflexivity.
  - rewrite run_seq_cons in Hrun.
    destruct (step d s) as [s1|e] eqn:Hs; simpl in Hrun; [|discriminate].
    transitivity s1; eauto.
Qed.
End run_seq_facts.

Lemma bind_Ok {E A B : Type} (r : result E A) (k : A -> result E B) (b : B) :
  bind r k = Ok b <-> exists a, r = Ok a /\ k a = Ok b.
Proof.
  destruct r as [a|e]; simpl; split.
  - eauto.
  - intros (a' & [= <-] & H). exact H.
  - discriminate.
  - intros (a' & [=] & _).
Qed.

#[global] Instance extends_preorder : PreOrder extends.
Proof.
  split.
  - intros s. split; reflexivity.
  - intros s1 s2 s3 [] []. split; etrans; eassumption.
Qed.

Lemma enter_extends (f : string) (h : header) (s : pp_state) :
  extends s (enter f h s).
Proof.
  split; simpl; [set_solver | reflexivity | by apply prefix_app_r].
Qed.

Lemma run_extends (P : platform) (self : string) (d : directive) :
  forall s s', run P self d s = Ok s' -> extends s s'.
Proof.
  induction d as [|f|f|m body IH|m body IH|m|d] using directive_ind;
    intros s s'; simpl.
  - intros [= <-]. split; simpl; [reflexivity | set_solver | reflexivity].
  - destruct (resolve_next P f); simpl; [|discriminate].
    intros [= <-]. apply enter_extends.
  - destruct (resolve P f); simpl; [|discriminate].
    intros [= <-]. apply enter_extends.
  - case_decide.
    + by apply run_seq_preserves; [apply _|].
    + intros [= <-]. reflexivity.
  - case_decide.
    + intros [= <-]. reflexivity.
    + by apply run_seq_preserves; [apply _|].
  - intros [= <-]. split; simpl; [set_solver | reflexivity | reflexivity].
  - intros [= <-]. split; simpl; [reflexivity | reflexivity |].
    by apply prefix_app_r.
Qed.

Lemma run_file_extends (P : platform) (self : string) (body : list directive)
    (s s' : pp_state) :
  run_file P self body s = Ok s' -> extends s s'.
Proof.
  apply run_seq_preserves; [apply _|].
  apply Forall_forall. intros d _. apply run_extends.
Qed.

Lemma include_file_extends (P : platform) (self : string)
    (body : list directive) (s s' : pp_state) :
  include_file P self body s = Ok s' -> extends s s'.
Proof.
  unfold include_file. case_decide.
  - intros [= <-]. reflexivity.
  - apply run_file_extends.
Qed.

(** ** The header, run *)

Lemma bind_Ok_r {E A : Type} (r : result E A) : bind r Ok = r.
Proof. by destruct r. Qed.

Lemma types_h_split : types_h = types_h_forwarding ++ types_h_patches.
Proof. reflexivity. Qed.

Lemma forwarded_run (P : platform) (s : pp_state) :
  forwarded P s
  = bind (include_header "sys/types.h" (resolve_next P "sys/types.h")
            (mark_once types_h_path s))
         (include_header "stdint.h" (resolve P "stdint.h")).
Proof.
  unfold forwarded, run_file, types_h_forwarding. simpl.
  destruct (include_header _ (resolve_next P _) _) as [s1|e]; simpl;
    [apply bind_Ok_r | reflexivity].
Qed.

Lemma pp_state_eq (s s' : pp_state) :
  macros s = macros s' -> once s = once s' -> out s = out s' -> s = s'.
Proof. destruct s, s'; simpl; congruence. Qed.

(** Set equalities on macro tables, without comparing macro names. *)
Ltac macro_table_eq :=
  apply set_eq; intros ?x;
  rewrite ?elem_of_union, ?elem_of_singleton;
  intuition (subst; auto).

Lemma rights_after_ioctl (M : gset string) :
  "_CAP_RIGHTS_T_DECLARED" ∈ ({[ "_CAP_IOCTL_T_DECLARED" ]} ∪ M : gset string)
  <-> "_CAP_RIGHTS_T_DECLARED" ∈ M.
Proof.
  rewrite elem_of_union, elem_of_singleton. split; [|by right].
  intros [Heq|Hin]; [discriminate Heq | exact Hin].
Qed.

Lemma patches_run (P : platform) (s1 : pp_state) :
  run_file P types_h_path types_h_patches s1 = Ok (patched s1).
Proof.
  destruct s1 as [M O ls].
  unfold run_file, types_h_patches, patched, patch_decls, guard_macros.
  simpl.
  destruct (decide ("__linux__" ∈ M)) as [HL|HL]; simpl;
    destruct (decide ("_CAP_IOCTL_T_DECLARED" ∈ M)) as [HI|HI]; simpl;
    destruct (decide ("_CAP_RIGHTS_T_DECLARED" ∈ M)) as [HR|HR]; simpl.
  all: try (rewrite (decide_True (P := _ ∈ {[_]} ∪ M))
              by (by apply rights_after_ioctl); simpl).
  all: try (rewrite (decide_False (P := _ ∈ {[_]} ∪ M))
              by (by rewrite rights_after_ioctl); simpl).
  all: apply (f_equal Ok), pp_state_eq; simpl;
    [macro_table_eq | reflexivity | by rewrite <- ?app_assoc].
Qed.

Lemma include_types_h_again (P : platform) (s : pp_state) :
  types_h_path ∈ once s -> include_types_h P s = Ok s.
Proof.
  intros Hin. unfold include_types_h, include_file. by rewrite decide_True.
Qed.

Lemma include_types_h_first (P : platform) (s : pp_state) :
  types_h_path ∉ once s ->
  include_types_h P s = bind (forwarded P s) (fun s1 => Ok (patched s1)).
Proof.
  intros Hnot. unfold include_types_h, include_file.
  rewrite decide_False by done.
  unfold run_file. rewrite types_h_split, run_seq_app.
  unfold forwarded, run_file.
  destruct (run_seq _ types_h_forwarding s) as [s1|e]; simpl; [|reflexivity].
  exact (patches_run P s1).
Qed.

Lemma forwarded_Ok (P : platform) (s s1 : pp_state) :
  forwarded P s = Ok s1 <->
  exists h1 h2,
    resolve_next P "sys/types.h" = Some h1 /\
    resolve P "stdint.h" = Some h2 /\
    s1 = enter "stdint.h" h2 (enter "sys/types.h" h1 (mark_once types_h_path s)).
Proof.
  rewrite forwarded_run. unfold include_header.
  destruct (resolve_next P "sys/types.h") as [h1|];
    destruct (resolve P "stdint.h") as [h2|]; simpl; split;
    try discriminate; try (intros (? & ? & [=] & _); fail);
    try (intros (? & ? & _ & [=] & _); fail).
  - intros [= <-]. by exists h1, h2.
  - intros (? & ? & [= <-] & [= <-] & ->). reflexivity.
Qed.


Lemma forwarded_once (P : platform) (s s1 : pp_state) :
  forwarded P s = Ok s1 -> once s1 = {[types_h_path]} ∪ once s.
Proof. intros (h1 & h2 & _ & _ & ->)%forwarded_Ok. reflexivity. Qed.

Lemma include_types_h_first_Ok (P : platform) (s s' : pp_state) :
  types_h_path ∉ once s ->
  include_types_h P s = Ok s' <->
  exists s1, forwarded P s = Ok s1 /\ s' = patched s1.
Proof.
  intros Hnot. rewrite include_types_h_first by done. rewrite bind_Ok.
  split; intros (s1 & Hf & Hp); exists s1; split; try done; congruence.
Qed.

(** ** Reading the output of an inclusion *)

Lemma emitted_app (s s' : pp_state) (k : list (string * decl)) :
  out s' = out s ++ k -> emitted s s' = k.
Proof. intros Hout. unfold emitted. by rewrite Hout, drop_app_length. Qed.

Lemma emitted_same (s : pp_state) : emitted s s = [].
Proof. apply emitted_app. by rewrite app_nil_r. Qed.

Lemma from_app (f : string) (k1 k2 : list (string * decl)) :
  from f (k1 ++ k2) = from f k1 ++ from f k2.
Proof. unfold from. by rewrite filter_app, map_app. Qed.

Lemma from_same (f : string) (ds : list decl) :
  from f (map (pair f) ds) = ds.
Proof.
  unfold from. induction ds as [|d ds IH]; [done|].
  simpl. rewrite filter_cons_True by done. simpl. by rewrite IH.
Qed.

Lemma from_other (f g : string) (ds : list decl) :
  f ≠ g -> from f (map (pair g) ds) = [].
Proof.
  intros Hne. unfold from. induction ds as [|d ds IH]; [done|].
  simpl. rewrite filter_cons_False; [exact IH | simpl; congruence].
Qed.

Lemma emitted_first (P : platform) (s s' : pp_state) :
  types_h_path ∉ once s ->
  include_types_h P s = Ok s' ->
  exists h1 h2 s1,
    resolve_next P "sys/types.h" = Some h1 /\
    resolve P "stdint.h" = Some h2 /\
    forwarded P s = Ok s1 /\
    macros s1
    = macros s ∪ fx_defines (h1 (macros s))
        ∪ fx_defines (h2 (macros s ∪ fx_defines (h1 (macros s)))) /\
    s' = patched s1 /\
    emitted s s'
    = map (pair "sys/types.h") (fx_emits (h1 (macros s)))
      ++ map (pair "stdint.h")
           (fx_emits (h2 (macros s ∪ fx_defines (h1 (macros s)))))
      ++ map (pair types_h_path) (patch_decls (macros s1)).
Proof.
  intros Hnot (s1 & Hf & ->)%include_types_h_first_Ok; [|done].
  pose proof Hf as (h1 & h2 & Hr1 & Hr2 & Hs1)%forwarded_Ok.
  exists h1, h2, s1. repeat split; try done.
  - by rewrite Hs1.
  - apply emitted_app. rewrite Hs1. simpl. by rewrite <- !app_assoc.
Qed.

Lemma own_decls_first (P : platform) (s s' : pp_state) :
  types_h_path ∉ once s ->
  include_types_h P s = Ok s' ->
  exists s1, forwarded P s = Ok s1 /\ own_decls s s' = patch_decls (macros s1).
Proof.
  intros Hnot Hinc.
  destruct (emitted_first P s s' Hnot Hinc)
    as (h1 & h2 & s1 & _ & _ & Hf & _ & _ & Hem).
  exists s1. split; [done|]. unfold own_decls. rewrite Hem, !from_app.
  rewrite !from_other by done. by rewrite from_same.
Qed.

Lemma own_decls_again (P : platform) (s s' : pp_state) :
  types_h_path ∈ once s ->
  include_types_h P s = Ok s' ->
  s' = s /\ own_decls s s' = [].
Proof.
  intros Hin. rewrite include_types_h_again by done. intros [= <-].
  split; [done|]. unfold own_decls. by rewrite emitted_same.
Qed.

Lemma include_types_h_marks (P : platform) (s s' : pp_state) :
  include_types_h P s = Ok s' -> types_h_path ∈ once s'.
Proof.
  destruct (decide (types_h_path ∈ once s)) as [Hin|Hnot].
  - rewrite include_types_h_again by done. by intros [= <-].
  - intros (s1 & Hf & ->)%include_types_h_first_Ok; [|done].
    simpl. rewrite (forwarded_once _ _ _ Hf). set_solver.
Qed.

(** What the conditionals select, declaration by declaration. *)
Lemma elem_of_patch_decls (d : decl) (M : gset string) :
  d ∈ patch_decls M <->
  (d = Typedef (TName "uintptr_t") "__uintptr_t" /\ "__linux__" ∈ M) \/
  d = Typedef TInt "__nl_item" \/
  d = Typedef (TName "size_t") "u_register_t" \/
  (d = Typedef TUnsignedLong "cap_ioctl_t" /\ "_CAP_IOCTL_T_DECLARED" ∉ M) \/
  ((d = StructFwd "cap_rights" \/
    d = Typedef (TStruct "cap_rights") "cap_rights_t") /\
   "_CAP_RIGHTS_T_DECLARED" ∉ M).
Proof.
  unfold patch_decls.
  destruct (decide ("__linux__" ∈ M));
    destruct (decide ("_CAP_IOCTL_T_DECLARED" ∈ M));
    destruct (decide ("_CAP_RIGHTS_T_DECLARED" ∈ M)); simpl;
    rewrite ?elem_of_cons, ?elem_of_nil; naive_solver.
Qed.

(** ** Counting typedefs *)


Lemma declarations_patched (s1 : pp_state) :
  declarations (patched s1) = declarations s1 ++ patch_decls (macros s1).
Proof.
  unfold declarations, patched. simpl. rewrite map_app. f_equal.
  rewrite map_map. simpl. apply map_id.
Qed.



Lemma as_written_Forall (M : gset string) :
  Forall (fun w => w ∉ M) types_h_words -> as_written M.
Proof. intros HF w Hw. by apply (proj1 (Forall_forall _ _) HF). Qed.



(** The patches are a function of three macro tests, and differ when
    one of the tests differs. *)
Lemma patch_decls_ext (M1 M2 : gset string) :
  ("__linux__" ∈ M1 <-> "__linux__" ∈ M2) ->
  ("_CAP_IOCTL_T_DECLARED" ∈ M1 <-> "_CAP_IOCTL_T_DECLARED" ∈ M2) ->
  ("_CAP_RIGHTS_T_DECLARED" ∈ M1 <-> "_CAP_RIGHTS_T_DECLARED" ∈ M2) ->
  patch_decls M1 = patch_decls M2.
Proof.
  intros HL HI HR. unfold patch_decls.
  destruct (decide ("__linux__" ∈ M1)) as [H1|H1];
    destruct (decide ("__linux__" ∈ M2)) as [H2|H2]; try tauto;
    destruct (decide ("_CAP_IOCTL_T_DECLARED" ∈ M1)) as [H3|H3];
    destruct (decide ("_CAP_IOCTL_T_DECLARED" ∈ M2)) as [H4|H4]; try tauto;
    destruct (decide ("_CAP_RIGHTS_T_DECLARED" ∈ M1)) as [H5|H5];
    destruct (decide ("_CAP_RIGHTS_T_DECLARED" ∈ M2)) as [H6|H6]; try tauto;
    reflexivity.
Qed.

Lemma patch_decls_inj (M1 M2 : gset string) :
  patch_decls M1 = patch_decls M2 ->
  ("__linux__" ∈ M1 <-> "__linux__" ∈ M2) /\
  ("_CAP_IOCTL_T_DECLARED" ∈ M1 <-> "_CAP_IOCTL_T_DECLARED" ∈ M2) /\
  ("_CAP_RIGHTS_T_DECLARED" ∈ M1 <-> "_CAP_RIGHTS_T_DECLARED" ∈ M2).
Proof.
  unfold patch_decls.
  destruct (decide ("__linux__" ∈ M1));
    destruct (decide ("__linux__" ∈ M2));
    destruct (decide ("_CAP_IOCTL_T_DECLARED" ∈ M1));
    destruct (decide ("_CAP_IOCTL_T_DECLARED" ∈ M2));
    destruct (decide ("_CAP_RIGHTS_T_DECLARED" ∈ M1));
    destruct (decide ("_CAP_RIGHTS_T_DECLARED" ∈ M2));
    simpl; intros Heq; try discriminate Heq; tauto.
Qed.

(** * The header's contract *)

(** Closed facts about the sample platforms are decided by evaluation. *)
Ltac by_evaluation := apply (bool_decide_unpack _); vm_compute; reflexivity.

Lemma include_times_marked (P : platform) (n : nat) (s : pp_state) :
  types_h_path ∈ once s -> include_times P n s = Ok s.
Proof.
  intros Hin. induction n as [|n IH]; [reflexivity|].
  simpl. rewrite include_types_h_again by done. exact IH.
Qed.

(** C1. Inclusion is idempotent: once the header has been included with
    result [s1], including it again leaves the state [s1] as it is (no
    declaration is added to the output, so the compiler sees no new
    definition and no redefinition, and no error is raised), and any
    number of inclusions in a row amounts to a single one. *)
Theorem types_h_inclusion_idempotent (P : platform) (s s1 : pp_state) :
  include_types_h P s = Ok s1 ->
  include_types_h P s1 = Ok s1 /\
  (forall s2, include_types_h P s1 = Ok s2 ->
     emitted s1 s2 = [] /\ check_tu s2 = check_tu s1) /\
  forall n, include_times P (S n) s = Ok s1.
Proof.
  intros Hinc. pose proof (include_types_h_marks _ _ _ Hinc) as Hin.
  split; [by apply include_types_h_again|].
  split.
  { intros s2. rewrite include_types_h_again by done. intros [= <-].
    split; [apply emitted_same | reflexivity]. }
  intros n. simpl. rewrite Hinc. simpl. by apply include_times_marked.
Qed.

Lemma types_h_inclusion_idempotent_witness :
  include_types_h posix_host linux_tu = Ok (included posix_host linux_tu) /\
  include_types_h posix_host (included posix_host linux_tu) = Ok (included posix_host linux_tu) /\
  (forall s2, include_types_h posix_host (included posix_host linux_tu) = Ok s2 ->
     emitted (included posix_host linux_tu) s2 = [] /\ check_tu s2 = check_tu (included posix_host linux_tu)) /\
  forall n, include_times posix_host (S n) linux_tu = Ok (included posix_host linux_tu).
Proof.
  assert (include_types_h posix_host linux_tu = Ok (included posix_host linux_tu)) as Hinc
    by (vm_compute; reflexivity).
  exact (conj Hinc (types_h_inclusion_idempotent _ _ _ Hinc)).
Defined.




(** C3, as stated, fails.  Where the platform's sys/types.h has declared
    [__nl_item] and [u_register_t] already, the header still emits its
    own declarations of both: they are not skipped. *)
Lemma typedefs_emitted_though_defined :
  forwarded bsd_host other_tu = Ok (forwarded_state bsd_host other_tu) /\
  include_types_h bsd_host other_tu = Ok (included bsd_host other_tu) /\
  "__nl_item" ∈ typedef_names (declarations (forwarded_state bsd_host other_tu)) /\
  "u_register_t" ∈ typedef_names (declarations (forwarded_state bsd_host other_tu)) /\
  Typedef TInt "__nl_item" ∈ own_decls other_tu (included bsd_host other_tu) /\
  Typedef (TName "size_t") "u_register_t" ∈ own_decls other_tu (included bsd_host other_tu).
Proof.
  split; [vm_compute; reflexivity|].
  split; [vm_compute; reflexivity|].
  repeat split; by_evaluation.
Qed.

(** C3, amended.  For declaration lines that the preprocessor passes
    through as written: three of the five declarations are conditional,
    each on a macro test made once the platform headers have been read:
    [__uintptr_t] is emitted exactly when [__linux__] is defined,
    [cap_ioctl_t] exactly when [_CAP_IOCTL_T_DECLARED] is not defined,
    [cap_rights_t] and the forward declaration of [struct cap_rights]
    exactly when [_CAP_RIGHTS_T_DECLARED] is not defined.  [__nl_item]
    and [u_register_t] are emitted on every first inclusion.  The header
    emits nothing else. *)
Theorem patches_conditions (P : platform) (s s1 s' : pp_state) :
  types_h_path ∉ once s ->
  forwarded P s = Ok s1 ->
  include_types_h P s = Ok s' ->
  as_written (macros s') ->
  (Typedef (TName "uintptr_t") "__uintptr_t" ∈ own_decls s s'
     <-> "__linux__" ∈ macros s1) /\
  Typedef TInt "__nl_item" ∈ own_decls s s' /\
  Typedef (TName "size_t") "u_register_t" ∈ own_decls s s' /\
  (Typedef TUnsignedLong "cap_ioctl_t" ∈ own_decls s s'
     <-> "_CAP_IOCTL_T_DECLARED" ∉ macros s1) /\
  (StructFwd "cap_rights" ∈ own_decls s s'
     <-> "_CAP_RIGHTS_T_DECLARED" ∉ macros s1) /\
  (Typedef (TStruct "cap_rights") "cap_rights_t" ∈ own_decls s s'
     <-> "_CAP_RIGHTS_T_DECLARED" ∉ macros s1) /\
  (forall d, d ∈ own_decls s s' ->
     d ∈ [ Typedef (TName "uintptr_t") "__uintptr_t";
           Typedef TInt "__nl_item";
           Typedef (TName "size_t") "u_register_t";
           Typedef TUnsignedLong "cap_ioctl_t";
           StructFwd "cap_rights";
           Typedef (TStruct "cap_rights") "cap_rights_t" ]).
Proof.
  intros Hnot Hf Hinc _.
  destruct (own_decls_first P s s' Hnot Hinc) as (s1' & Hf' & ->).
  assert (s1' = s1) as -> by congruence.
  repeat split; try (intros ?); rewrite ?elem_of_patch_decls in *;
    try naive_solver.
  set_solver.
Qed.

Lemma patches_conditions_witness :
  (types_h_path ∉ once ioctl_declared_tu) /\
  forwarded posix_host ioctl_declared_tu
  = Ok (forwarded_state posix_host ioctl_declared_tu) /\
  include_types_h posix_host ioctl_declared_tu
  = Ok (included posix_host ioctl_declared_tu) /\
  as_written (macros (included posix_host ioctl_declared_tu)) /\
  Typedef (TName "uintptr_t") "__uintptr_t"
    ∈ own_decls ioctl_declared_tu (included posix_host ioctl_declared_tu) /\
  Typedef TInt "__nl_item"
    ∈ own_decls ioctl_declared_tu (included posix_host ioctl_declared_tu) /\
  Typedef TUnsignedLong "cap_ioctl_t"
    ∉ own_decls ioctl_declared_tu (included posix_host ioctl_declared_tu).
Proof.
  assert (types_h_path ∉ once ioctl_declared_tu) as Hnot by by_evaluation.
  assert (forwarded posix_host ioctl_declared_tu
          = Ok (forwarded_state posix_host ioctl_declared_tu)) as Hf
    by (vm_compute; reflexivity).
  assert (include_types_h posix_host ioctl_declared_tu
          = Ok (included posix_host ioctl_declared_tu)) as Hinc
    by (vm_compute; reflexivity).
  assert (as_written (macros (included posix_host ioctl_declared_tu)))
    as Hw by (apply as_written_Forall; by_evaluation).
  destruct (patches_conditions _ _ _ _ Hnot Hf Hinc Hw)
    as (Hup & Hnl & _ & Hio & _).
  repeat (split; [assumption|]).
  split; [apply Hup; by_evaluation|].
  split; [exact Hnl|].
  intros Hin. apply Hio in Hin. apply Hin. by_evaluation.
Defined.

(** C4, as stated, fails.  After inclusion [uint32_t] is visible; it is
    not one of the five names and the platform's sys/types.h did not
    expose it: it comes from <stdint.h>. *)
Lemma stdint_symbols_exposed :
  resolve_next posix_host "sys/types.h" = Some posix_sys_types_h /\
  include_types_h posix_host linux_tu = Ok (included posix_host linux_tu) /\
  "uint32_t" ∈ typedef_names (map snd (emitted linux_tu (included posix_host linux_tu))) /\
  ("uint32_t" ∉ patched_names) /\
  "uint32_t" ∉ typedef_names (fx_emits (posix_sys_types_h (macros linux_tu))).
Proof.
  split; [reflexivity|].
  split; [vm_compute; reflexivity|].
  repeat split; by_evaluation.
Qed.

Lemma typedef_names_patch_decls (M : gset string) (n : string) :
  n ∈ typedef_names (patch_decls M) -> n ∈ patched_names.
Proof.
  unfold typedef_names. rewrite list_elem_of_omap.
  intros (d & Hd & Hn). apply elem_of_patch_decls in Hd.
  unfold patched_names.
  destruct Hd as [[-> _]|[->|[->|[[-> _]|[[->| ->] _]]]]];
    simpl in Hn; try discriminate; injection Hn as <-; set_solver.
Qed.

(** C4, amended.  What a first inclusion makes visible is what the
    platform's sys/types.h exposes, what <stdint.h> exposes, and the
    header's own declarations, which (passed through as written) are
    typedefs of names among the five, [__nl_item] and [u_register_t]
    always among them, and the tag of [struct cap_rights].  The only
    macros the header itself defines are its two guard macros.  Nothing
    comes from any other source. *)
Theorem visible_symbols (P : platform) (s s' : pp_state) :
  types_h_path ∉ once s ->
  include_types_h P s = Ok s' ->
  as_written (macros s') ->
  exists h1 h2 t,
    resolve_next P "sys/types.h" = Some h1 /\
    resolve P "stdint.h" = Some h2 /\
    forwarded P s = Ok t /\
    let fx1 := h1 (macros s) in
    let fx2 := h2 (macros s ∪ fx_defines fx1) in
    (forall f d, (f, d) ∈ emitted s s' <->
       (f = "sys/types.h" /\ d ∈ fx_emits fx1) \/
       (f = "stdint.h" /\ d ∈ fx_emits fx2) \/
       (f = types_h_path /\ d ∈ own_decls s s')) /\
    (forall n, n ∈ typedef_names (own_decls s s') -> n ∈ patched_names) /\
    "__nl_item" ∈ typedef_names (own_decls s s') /\
    "u_register_t" ∈ typedef_names (own_decls s s') /\
    (forall d, d ∈ own_decls s s' ->
       (exists ty n, d = Typedef ty n) \/ d = StructFwd "cap_rights") /\
    macros s' = macros t ∪ guard_macros.
Proof.
  intros Hnot Hinc _.
  destruct (emitted_first P s s' Hnot Hinc)
    as (h1 & h2 & t & Hr1 & Hr2 & Hf & HM & Hs' & Hem).
  destruct (own_decls_first P s s' Hnot Hinc) as (t' & Hf' & Hown).
  assert (t' = t) as -> by congruence.
  exists h1, h2, t. split; [done|]. split; [done|]. split; [done|]. simpl.
  rewrite Hown.
  split; [|split; [|split; [|split; [|split]]]].
  - intros f d. rewrite Hem, !elem_of_app, !list_elem_of_fmap. split.
    + intros [(d' & [= -> ->] & Hd)|[(d' & [= -> ->] & Hd)
                                    |(d' & [= -> ->] & Hd)]]; auto.
    + intros [[-> Hd]|[[-> Hd]|[-> Hd]]]; eauto 6.
  - apply typedef_names_patch_decls.
  - unfold typedef_names. apply list_elem_of_omap.
    exists (Typedef TInt "__nl_item"). split; [|done].
    apply elem_of_patch_decls. right. by left.
  - unfold typedef_names. apply list_elem_of_omap.
    exists (Typedef (TName "size_t") "u_register_t"). split; [|done].
    apply elem_of_patch_decls. right. right. by left.
  - intros d Hd%elem_of_patch_decls.
    destruct Hd as [[-> _]|[->|[->|[[-> _]|[[->| ->] _]]]]]; eauto.
  - rewrite Hs'. simpl. apply set_eq. intros x.
    rewrite !elem_of_union. tauto.
Qed.

Lemma visible_symbols_witness :
  (types_h_path ∉ once linux_tu) /\
  include_types_h posix_host linux_tu = Ok (included posix_host linux_tu) /\
  as_written (macros (included posix_host linux_tu)) /\
  exists h1 h2 t,
    resolve_next posix_host "sys/types.h" = Some h1 /\
    resolve posix_host "stdint.h" = Some h2 /\
    forwarded posix_host linux_tu = Ok t /\
    let fx1 := h1 (macros linux_tu) in
    let fx2 := h2 (macros linux_tu ∪ fx_defines fx1) in
    (forall f d, (f, d) ∈ emitted linux_tu (included posix_host linux_tu) <->
       (f = "sys/types.h" /\ d ∈ fx_emits fx1) \/
       (f = "stdint.h" /\ d ∈ fx_emits fx2) \/
       (f = types_h_path /\
        d ∈ own_decls linux_tu (included posix_host linux_tu))) /\
    (forall n,
       n ∈ typedef_names (own_decls linux_tu (included posix_host linux_tu)) ->
       n ∈ patched_names) /\
    "__nl_item"
      ∈ typedef_names (own_decls linux_tu (included posix_host linux_tu)) /\
    "u_register_t"
      ∈ typedef_names (own_decls linux_tu (included posix_host linux_tu)) /\
    (forall d, d ∈ own_decls linux_tu (included posix_host linux_tu) ->
       (exists ty n, d = Typedef ty n) \/ d = StructFwd "cap_rights") /\
    macros (included posix_host linux_tu) = macros t ∪ guard_macros.
Proof.
  assert (types_h_path ∉ once linux_tu) as Hnot by by_evaluation.
  assert (include_types_h posix_host linux_tu
          = Ok (included posix_host linux_tu)) as Hinc
    by (vm_compute; reflexivity).
  assert (as_written (macros (included posix_host linux_tu))) as Hw
    by (apply as_written_Forall; by_evaluation).
  exact (conj Hnot (conj Hinc (conj Hw
           (visible_symbols _ _ _ Hnot Hinc Hw)))).
Defined.









(** C8, as stated, fails.  On one platform, a translation unit with
    [__linux__] defined and one without get different declarations from
    the header. *)
Lemma output_depends_on_context :
  include_types_h posix_host linux_tu = Ok (included posix_host linux_tu) /\
  include_types_h posix_host other_tu = Ok (included posix_host other_tu) /\
  own_decls linux_tu (included posix_host linux_tu)
  ≠ own_decls other_tu (included posix_host other_tu).
Proof.
  split; [vm_compute; reflexivity|].
  split; [vm_compute; reflexivity|].
  by_evaluation.
Qed.

(** C8, amended.  The header takes input from the preprocessing state: a
    repeated inclusion emits nothing, and what a first inclusion emits of
    its own (its lines passed through as written) is decided by three
    macro tests made once the platform headers have been read,
    [__linux__], [_CAP_IOCTL_T_DECLARED] and [_CAP_RIGHTS_T_DECLARED].
    Two first inclusions emit the same declarations exactly when they
    agree on the three tests. *)
Theorem own_output_decided_by_three_tests
    (P1 P2 : platform) (s1 s2 t1 t2 s1' s2' : pp_state) :
  types_h_path ∉ once s1 ->
  types_h_path ∉ once s2 ->
  forwarded P1 s1 = Ok t1 ->
  forwarded P2 s2 = Ok t2 ->
  include_types_h P1 s1 = Ok s1' ->
  include_types_h P2 s2 = Ok s2' ->
  as_written (macros s1') ->
  as_written (macros s2') ->
  (own_decls s1 s1' = own_decls s2 s2' <->
   ("__linux__" ∈ macros t1 <-> "__linux__" ∈ macros t2) /\
   ("_CAP_IOCTL_T_DECLARED" ∈ macros t1
      <-> "_CAP_IOCTL_T_DECLARED" ∈ macros t2) /\
   ("_CAP_RIGHTS_T_DECLARED" ∈ macros t1
      <-> "_CAP_RIGHTS_T_DECLARED" ∈ macros t2)) /\
  (forall s3, include_types_h P1 s1' = Ok s3 -> own_decls s1' s3 = []).
Proof.
  intros Hn1 Hn2 Hf1 Hf2 Hi1 Hi2 _ _.
  destruct (own_decls_first P1 s1 s1' Hn1 Hi1) as (u1 & Hu1 & ->).
  destruct (own_decls_first P2 s2 s2' Hn2 Hi2) as (u2 & Hu2 & ->).
  assert (u1 = t1) as -> by congruence.
  assert (u2 = t2) as -> by congruence.
  split.
  - split; [apply patch_decls_inj|].
    intros (HL & HI & HR). by apply patch_decls_ext.
  - intros s3 Hi3.
    by apply (own_decls_again P1 s1' s3 (include_types_h_marks _ _ _ Hi1)).
Qed.

Lemma own_output_decided_by_three_tests_witness :
  (types_h_path ∉ once linux_tu) /\
  (types_h_path ∉ once configured_linux_tu) /\
  forwarded posix_host linux_tu = Ok (forwarded_state posix_host linux_tu) /\
  forwarded ilp32_host configured_linux_tu
  = Ok (forwarded_state ilp32_host configured_linux_tu) /\
  include_types_h posix_host linux_tu = Ok (included posix_host linux_tu) /\
  include_types_h ilp32_host configured_linux_tu
  = Ok (included ilp32_host configured_linux_tu) /\
  as_written (macros (included posix_host linux_tu)) /\
  as_written (macros (included ilp32_host configured_linux_tu)) /\
  own_decls linux_tu (included posix_host linux_tu)
  = own_decls configured_linux_tu (included ilp32_host configured_linux_tu).
Proof.
  assert (types_h_path ∉ once linux_tu) as Hn1 by by_evaluation.
  assert (types_h_path ∉ once configured_linux_tu) as Hn2 by by_evaluation.
  assert (forwarded posix_host linux_tu
          = Ok (forwarded_state posix_host linux_tu)) as Hf1
    by (vm_compute; reflexivity).
  assert (forwarded ilp32_host configured_linux_tu
          = Ok (forwarded_state ilp32_host configured_linux_tu)) as Hf2
    by (vm_compute; reflexivity).
  assert (include_types_h posix_host linux_tu
          = Ok (included posix_host linux_tu)) as Hi1
    by (vm_compute; reflexivity).
  assert (include_types_h ilp32_host configured_linux_tu
          = Ok (included ilp32_host configured_linux_tu)) as Hi2
    by (vm_compute; reflexivity).
  assert (as_written (macros (included posix_host linux_tu))) as Hw1
    by (apply as_written_Forall; by_evaluation).
  assert (as_written (macros (included ilp32_host configured_linux_tu)))
    as Hw2 by (apply as_written_Forall; by_evaluation).
  repeat (split; [assumption|]).
  destruct (own_output_decided_by_three_tests _ _ _ _ _ _ _ _
              Hn1 Hn2 Hf1 Hf2 Hi1 Hi2 Hw1 Hw2) as [Hiff _].
  apply Hiff. repeat split; by_evaluation.
Defined.

(** C9. After a first inclusion every declaration that <stdint.h> emits
    is in the translation unit, whatever the platform's sys/types.h
    provides; nothing that was there before is lost. *)
Theorem stdint_types_visible (P : platform) (s s' : pp_state) :
  types_h_path ∉ once s ->
  include_types_h P s = Ok s' ->
  exists h1 h2,
    resolve_next P "sys/types.h" = Some h1 /\
    resolve P "stdint.h" = Some h2 /\
    (forall d,
       d ∈ fx_emits (h2 (macros s ∪ fx_defines (h1 (macros s)))) ->
       ("stdint.h", d) ∈ out s' /\ d ∈ declarations s') /\
    out s `prefix_of` out s'.
Proof.
  intros Hnot Hinc.
  destruct (emitted_first P s s' Hnot Hinc)
    as (h1 & h2 & s1 & Hr1 & Hr2 & _ & _ & _ & Hem).
  pose proof (ext_out _ _ (include_file_extends _ _ _ _ _ Hinc)) as [k Hk].
  rewrite (emitted_app _ _ _ Hk) in Hem.
  exists h1, h2. repeat split; try done.
  - rewrite Hk, Hem. rewrite !elem_of_app. right. right. left.
    by apply list_elem_of_fmap_2.
  - unfold declarations. rewrite Hk, Hem, !fmap_app, !elem_of_app.
    right. right. left. rewrite <- list_fmap_compose.
    apply list_elem_of_fmap. by exists d.
  - by exists k.
Qed.

Lemma stdint_types_visible_witness :
  (types_h_path ∉ once other_tu) /\
  include_types_h posix_host other_tu = Ok (included posix_host other_tu) /\
  exists h1 h2,
    resolve_next posix_host "sys/types.h" = Some h1 /\
    resolve posix_host "stdint.h" = Some h2 /\
    (forall d,
       d ∈ fx_emits (h2 (macros other_tu ∪ fx_defines (h1 (macros other_tu)))) ->
       ("stdint.h", d) ∈ out (included posix_host other_tu) /\ d ∈ declarations (included posix_host other_tu)) /\
    out other_tu `prefix_of` out (included posix_host other_tu).
Proof.
  assert (types_h_path ∉ once other_tu) as Hnot by by_evaluation.
  assert (include_types_h posix_host other_tu = Ok (included posix_host other_tu)) as Hinc
    by (vm_compute; reflexivity).
  exact (conj Hnot (conj Hinc (stdint_types_visible _ _ _ Hnot Hinc))).
Defined.




(** * Further properties of the header *)






(** ** The compiler's verdict *)

Lemma check_decls_app (ds1 ds2 : list decl) (env : tenv) :
  check_decls (ds1 ++ ds2) env
  = bind (check_decls ds1 env) (check_decls ds2).
Proof. apply run_seq_app. Qed.

Lemma check_tu_patched (t : pp_state) :
  check_tu (patched t)
  = bind (check_tu t) (check_decls (patch_decls (macros t))).
Proof. unfold check_tu. by rewrite declarations_patched, check_decls_app. Qed.

Lemma tenv_eq (e1 e2 : tenv) :
  typedefs e1 = typedefs e2 -> structs e1 = structs e2 -> e1 = e2.
Proof. destruct e1, e2; simpl; congruence. Qed.

Lemma check_typedef_ok (env : tenv) (ty c : ctype) (n : string) :
  canon env ty = Ok c ->
  may_declare env n c ->
  check_decl (Typedef ty n) env = Ok (declare n c env).
Proof.
  intros Hc [Hnone|Hsame]; simpl; rewrite Hc; simpl.
  - by rewrite Hnone.
  - rewrite Hsame, decide_True by done. f_equal.
    apply tenv_eq; simpl; [|done]. symmetry. by apply insert_id.
Qed.

Lemma check_typedef_unknown (env : tenv) (n m : string) :
  typedefs env !! m = None ->
  check_decl (Typedef (TName m) n) env = Err (UnknownType m).
Proof. intros Hm. simpl. by rewrite Hm. Qed.


Lemma lookup_declare_ne (env : tenv) (n m : string) (c : ctype) :
  n ≠ m -> typedefs (declare n c env) !! m = typedefs env !! m.
Proof. intros Hne. simpl. by apply lookup_insert_ne. Qed.

Lemma lookup_declare_eq (env : tenv) (n : string) (c : ctype) :
  typedefs (declare n c env) !! n = Some c.
Proof. simpl. apply lookup_insert_eq. Qed.

Lemma may_declare_declare_ne (env : tenv) (n m : string) (c d : ctype) :
  n ≠ m -> may_declare env m d -> may_declare (declare n c env) m d.
Proof.
  intros Hne Hm. unfold may_declare. by rewrite lookup_declare_ne.
Qed.

Lemma canon_declare_ne (env : tenv) (n m : string) (c : ctype) :
  n ≠ m -> canon (declare n c env) (TName m) = canon env (TName m).
Proof. intros Hne. unfold canon. by rewrite lookup_declare_ne. Qed.

Lemma check_decls_cons_typedef (env : tenv) (ty c : ctype) (n : string)
    (ds : list decl) :
  canon env ty = Ok c ->
  may_declare env n c ->
  check_decls (Typedef ty n :: ds) env = check_decls ds (declare n c env).
Proof.
  intros Hc Hm. unfold check_decls. rewrite run_seq_cons.
  by rewrite (check_typedef_ok env ty c n).
Qed.



Ltac solve_canon :=
  rewrite ?canon_declare_ne by done;
  first [ reflexivity
        | unfold canon;
          match goal with
          | H : typedefs _ !! _ = Some _ |- _ => rewrite H; reflexivity
          end ].

Ltac solve_may :=
  repeat (apply may_declare_declare_ne; [done|]); assumption.

Ltac simp_lookup :=
  repeat first [ rewrite lookup_declare_eq
               | rewrite lookup_declare_ne by done ].





Lemma check_decls_cons_err (env : tenv) (d : decl) (ds : list decl)
    (e : cc_error) :
  check_decl d env = Err e -> check_decls (d :: ds) env = Err e.
Proof. intros He. unfold check_decls. rewrite run_seq_cons. by rewrite He. Qed.

(** The first lines of the patches, up to [__nl_item], are accepted. *)
Ltac accept_typedef :=
  erewrite check_decls_cons_typedef; [|solve_canon|solve_may].

(** X8. What the header needs from the platform.  The header declares
    [u_register_t] as [size_t] and, on Linux, [__uintptr_t] as
    [uintptr_t], and declares neither of the two itself.  With the
    header's lines passed through as written (in particular [size_t] and
    [uintptr_t] are not macros): if the translation unit has no typedef
    [uintptr_t] on Linux once the platform headers have been read, the
    compiler rejects the header's first line with "unknown type
    uintptr_t"; if it has no typedef [size_t], it rejects the declaration
    of [u_register_t] with "unknown type size_t".  An error in what
    precedes the header's lines is reported as it is. *)
Theorem prerequisite_types
    (P : platform) (s t s' : pp_state) :
  types_h_path ∉ once s ->
  forwarded P s = Ok t ->
  include_types_h P s = Ok s' ->
  as_written (macros s') ->
  (forall e, check_tu t = Err e -> check_tu s' = Err e) /\
  (forall env,
     check_tu t = Ok env ->
     "__linux__" ∈ macros t ->
     typedefs env !! "uintptr_t" = None ->
     check_tu s' = Err (UnknownType "uintptr_t")) /\
  (forall env,
     check_tu t = Ok env ->
     ("__linux__" ∈ macros t ->
        exists cU, typedefs env !! "uintptr_t" = Some cU /\
                   may_declare env "__uintptr_t" cU) ->
     may_declare env "__nl_item" TInt ->
     typedefs env !! "size_t" = None ->
     check_tu s' = Err (UnknownType "size_t")).
Proof.
  intros Hnot Hf Hinc _.
  apply include_types_h_first_Ok in Hinc as (t' & Hf' & ->); [|done].
  assert (t' = t) as -> by congruence.
  rewrite check_tu_patched. split; [|split].
  - intros e ->. reflexivity.
  - intros env -> HL HU. simpl. unfold patch_decls.
    rewrite decide_True by done. simpl app.
    apply check_decls_cons_err. by apply check_typedef_unknown.
  - intros env -> HL HmN HS. simpl. unfold patch_decls.
    destruct (decide ("__linux__" ∈ macros t)) as [HL'|HL'];
      [destruct (HL HL') as (cU & HU & HmU)|];
      simpl app; repeat accept_typedef;
      apply check_decls_cons_err, check_typedef_unknown;
      by simp_lookup.
Qed.

Lemma prerequisite_types_witness :
  (types_h_path ∉ once other_tu) /\
  forwarded sizeless_host other_tu
  = Ok (forwarded_state sizeless_host other_tu) /\
  include_types_h sizeless_host other_tu
  = Ok (included sizeless_host other_tu) /\
  as_written (macros (included sizeless_host other_tu)) /\
  check_tu (included sizeless_host other_tu) = Err (UnknownType "size_t").
Proof.
  assert (types_h_path ∉ once other_tu) as Hnot by by_evaluation.
  assert (forwarded sizeless_host other_tu
          = Ok (forwarded_state sizeless_host other_tu)) as Hf
    by (vm_compute; reflexivity).
  assert (include_types_h sizeless_host other_tu
          = Ok (included sizeless_host other_tu)) as Hinc
    by (vm_compute; reflexivity).
  assert (as_written (macros (included sizeless_host other_tu))) as Hw
    by (apply as_written_Forall; by_evaluation).
  destruct (prerequisite_types _ _ _ _ Hnot Hf Hinc Hw) as (_ & _ & Hsize).
  repeat (split; [assumption|]).
  apply (Hsize (checked (forwarded_state sizeless_host other_tu))).
  - vm_compute. reflexivity.
  - intros HL. exfalso. revert HL. by_evaluation.
  - left. by_evaluation.
  - by_evaluation.
Defined.


